(** * Dictionary coherence and distinctiveness scoring

    A shallow embedding of the two scoring helpers of
    [notebooks/wem_hackathon_TextXD18.ipynb], [dict_cohere] and
    [dict_distinct], together with the part of the embedding model
    ([KeyedVectors.distances]) they call.

    Floating-point numbers are idealised: a finite float is a real number
    and arithmetic on finite floats is exact.  What is kept of NumPy's
    arithmetic is its behaviour at the edges the two helpers can reach:
    a NumPy float divided by zero is an infinity or a NaN (no exception),
    whereas a Python [int] divided by zero raises [ZeroDivisionError].

    Rounding, overflow and underflow are not modelled.  The theorems
    therefore say which operations are applied to which operands, when an
    exception is raised and which, what happens to the lists, and where a
    NaN comes from; they give no range for a finite result and do not
    compare results that differ in the order of their additions. *)

From Stdlib Require Import Reals Lra Lia.
From stdpp Require Import base option list gmap strings.

(** ** Numbers *)

(** A NumPy floating-point scalar. *)
Inductive npfloat : Type :=
  | Fin (x : R)
  | PInf
  | NInf
  | NaN.

(** Division of two finite floats; the divisor is never negative zero in
    the code below (it is a norm product or a length). *)
Definition fdiv (x y : R) : npfloat :=
  if Req_dec_T y 0 then
    if Req_dec_T x 0 then NaN
    else if Rlt_dec 0 x then PInf else NInf
  else Fin (x / y).

Definition np_add (a b : npfloat) : npfloat :=
  match a, b with
  | NaN, _ | _, NaN => NaN
  | PInf, NInf | NInf, PInf => NaN
  | PInf, _ | _, PInf => PInf
  | NInf, _ | _, NInf => NInf
  | Fin x, Fin y => Fin (x + y)
  end.

(** [1 - a] *)
Definition np_rsub1 (a : npfloat) : npfloat :=
  match a with
  | Fin x => Fin (1 - x)
  | PInf => NInf
  | NInf => PInf
  | NaN => NaN
  end.

(** [a / n] for a NumPy float [a] and the result [n] of [len]. *)
Definition np_div_len (a : npfloat) (n : nat) : npfloat :=
  match a with
  | Fin x => fdiv x (INR n)
  | PInf => PInf
  | NInf => NInf
  | NaN => NaN
  end.

(** [ndarray.sum()] *)
Definition np_sum (xs : list npfloat) : npfloat := foldr np_add (Fin 0) xs.

(** The values the accumulators of the two helpers can hold: they start as
    the Python [int] 0 and become NumPy floats at the first [+=]. *)
Inductive num : Type :=
  | PyInt (z : Z)
  | PyFloat (x : R)
  | NpFloat (a : npfloat).

Definition py_add (a b : num) : num :=
  match a, b with
  | PyInt x, PyInt y => PyInt (x + y)
  | PyInt x, PyFloat y => PyFloat (IZR x + y)
  | PyFloat x, PyInt y => PyFloat (x + IZR y)
  | PyFloat x, PyFloat y => PyFloat (x + y)
  | PyInt x, NpFloat b => NpFloat (np_add (Fin (IZR x)) b)
  | PyFloat x, NpFloat b => NpFloat (np_add (Fin x) b)
  | NpFloat a, PyInt y => NpFloat (np_add a (Fin (IZR y)))
  | NpFloat a, PyFloat y => NpFloat (np_add a (Fin y))
  | NpFloat a, NpFloat b => NpFloat (np_add a b)
  end.

(** [1 - a] *)
Definition py_rsub1 (a : num) : num :=
  match a with
  | PyInt x => PyInt (1 - x)
  | PyFloat x => PyFloat (1 - x)
  | NpFloat a => NpFloat (np_rsub1 a)
  end.

(** ** Vectors and cosine similarity *)

Abbreviation vector := (list R).

Fixpoint dot (u v : vector) : R :=
  match u, v with
  | x :: u', y :: v' => x * y + dot u' v'
  | _, _ => 0
  end.

(** [np.linalg.norm] *)
Definition norm (u : vector) : R := sqrt (dot u u).

(** One entry of [KeyedVectors.cosine_similarities(vector_1, vectors_all)]:
    [dot(row, vector_1) / (norm(vector_1) * norm(row))]. *)
Definition cosine_similarity (vector_1 row : vector) : npfloat :=
  fdiv (dot row vector_1) (norm vector_1 * norm row).

(** ** The embedding model *)

(** Modelled from the spec: the embedding space is an external capability
    (gensim's [KeyedVectors], which is not part of the notebook) giving a
    vector for every known term and a distance that is one minus the
    cosine similarity.  The term index [vocab[w].index] and the row
    [vectors[index]] are one finite map here; the rows of an array have one
    length, so [dot] never meets vectors of different lengths. *)
Record KeyedVectors : Type := { vocab : gmap string vector }.

Definition in_vocab (kv : KeyedVectors) (w : string) : Prop :=
  is_Some (vocab kv !! w).

(** [self.vectors]: every row of the model. *)
Definition all_vectors (kv : KeyedVectors) : list vector :=
  (map_to_list (vocab kv)).*2.

(** ** Python state: list objects on a heap, exceptions *)

Definition loc : Type := positive.

(** The exceptions of the two helpers.  The last two are not Python's: a
    reference that is not on the heap, and the bound on the number of
    rounds of a loop. *)
Inductive exn : Type :=
  | ZeroDivisionError
  | KeyError (w : string)
  | InvalidRef (l : loc)
  | OutOfFuel.

Inductive result (A : Type) : Type :=
  | Ok (a : A)
  | Raise (e : exn).
Arguments Ok {A} a.
Arguments Raise {A} e.

(** A computation reads and may change the heap of list objects, and
    returns a value or raises. *)
Definition M (A : Type) : Type := gmap loc (list string) → result A * gmap loc (list string).

Definition ret {A} (a : A) : M A := λ h, (Ok a, h).
Definition raise {A} (e : exn) : M A := λ h, (Raise e, h).
Definition bind {A B} (m : M A) (k : A → M B) : M B :=
  λ h, match m h with
       | (Ok a, h') => k a h'
       | (Raise e, h') => (Raise e, h')
       end.

#[global] Instance M_ret : MRet M := @ret.
#[global] Instance M_bind : MBind M := λ A B k m, bind m k.

(** The list object a reference points to. *)
Definition deref (l : loc) : M (list string) :=
  λ h, match h !! l with
       | Some ws => (Ok ws, h)
       | None => (Raise (InvalidRef l), h)
       end.

(** [len(l)] *)
Definition len (l : loc) : M nat := ws ← deref l; ret (length ws).

(** [a / n] where [n] is the result of [len]: true division of Python
    numbers raises on a zero divisor, division of a NumPy float does not. *)
Definition py_truediv (a : num) (n : nat) : M num :=
  match a with
  | PyInt x => if decide (n = 0%nat) then raise ZeroDivisionError
               else ret (PyFloat (IZR x / INR n))
  | PyFloat x => if decide (n = 0%nat) then raise ZeroDivisionError
                 else ret (PyFloat (x / INR n))
  | NpFloat a => ret (NpFloat (np_div_len a n))
  end.

(** [for w in l: acc = body(w, acc)].  The list iterator keeps the
    reference and an index and looks the list up again at every step. *)
Fixpoint for_in {A} (fuel : nat) (l : loc) (i : nat)
    (body : string → A → M A) (acc : A) : M A :=
  match fuel with
  | O => raise OutOfFuel
  | S fuel' =>
      ws ← deref l;
      match ws !! i with
      | None => ret acc
      | Some w => acc' ← body w acc; for_in fuel' l (S i) body acc'
      end
  end.

Section Scorers.
Context (wem_model : KeyedVectors).

(** [KeyedVectors.word_vec]: [KeyError] for a term not in the vocabulary. *)
Definition word_vec (word : string) : M vector :=
  match vocab wem_model !! word with
  | Some v => ret v
  | None => raise (KeyError word)
  end.

(** [[self.vocab[word].index for word in other_words]] followed by
    [self.vectors[other_indices]]. *)
Fixpoint word_vecs (other_words : list string) : M (list vector) :=
  match other_words with
  | [] => ret []
  | w :: ws => v ← word_vec w; vs ← word_vecs ws; ret (v :: vs)
  end.

(** [KeyedVectors.distances(word, other_words)]: one minus the cosine
    similarity of [word] with each of [other_words]; with an empty
    [other_words], with every row of the model. *)
Definition distances (word : string) (other_words : loc) : M (list npfloat) :=
  input_vector ← word_vec word;
  ws ← deref other_words;
  other_vectors ← match ws with
                  | [] => ret (all_vectors wem_model)
                  | _ => word_vecs ws
                  end;
  ret (map (λ row, np_rsub1 (cosine_similarity input_vector row)) other_vectors).

(** [dict_cohere(thisdict, wem_model)]: the loop adds up, for each word
    of [thisdict], its average distance to the words of [thisdict]; the
    result is one minus the average of these.  [fuel] bounds the rounds
    of the loop. *)
Definition dict_cohere (fuel : nat) (thisdict : loc) : M num :=
  let word_avg_dists := PyInt 0 in
  word_avg_dists ←
    for_in fuel thisdict 0 (λ word word_avg_dists,
      ds ← distances word thisdict;
      n ← len thisdict;
      let word_avg_dist := np_div_len (np_sum ds) n in
      ret (py_add word_avg_dists (NpFloat word_avg_dist))) word_avg_dists;
  n ← len thisdict;
  avg ← py_truediv word_avg_dists n;
  let dict_avg_sim := py_rsub1 avg in
  ret dict_avg_sim.

(** [dict_distinct(dict1, dict2, wem_model)]: the same loop over [dict1]
    with the distances taken to the words of [dict2]; the average is
    returned as it is. *)
Definition dict_distinct (fuel : nat) (dict1 dict2 : loc) : M num :=
  let word_avg_dists := PyInt 0 in
  word_avg_dists ←
    for_in fuel dict1 0 (λ word word_avg_dists,
      ds ← distances word dict2;
      n ← len dict2;
      let word_avg_dist := np_div_len (np_sum ds) n in
      ret (py_add word_avg_dists (NpFloat word_avg_dist))) word_avg_dists;
  n ← len dict1;
  dicts_avg_dist ← py_truediv word_avg_dists n;
  ret dicts_avg_dist.
End Scorers.

(** ** What the spec calls the scores *)

(** The vector of a term of the vocabulary. *)
Definition vec (kv : KeyedVectors) (t : string) : vector :=
  default [] (vocab kv !! t).

(** Cosine distance: one minus the cosine similarity of two vectors. *)
Definition cosine_distance (u v : vector) : npfloat :=
  np_rsub1 (fdiv (dot u v) (norm u * norm v)).

Definition term_distance (kv : KeyedVectors) (t t' : string) : npfloat :=
  cosine_distance (vec kv t) (vec kv t').

(** The mean of a list of floats divides their sum by the length of the list. *)
Definition mean (xs : list npfloat) : npfloat :=
  np_div_len (np_sum xs) (length xs).

(** Mean distance from [t] to every term of [ts]. *)
Definition mean_distance (kv : KeyedVectors) (t : string) (ts : list string) : npfloat :=
  mean (map (term_distance kv t) ts).

(** One minus the mean, over the terms of the list, of each term's mean
    distance to every term of the same list. *)
Definition coherence (kv : KeyedVectors) (ts : list string) : npfloat :=
  np_rsub1 (mean (map (λ t, mean_distance kv t ts) ts)).

(** The mean, over the terms of [ts1], of each term's mean distance to
    every term of [ts2]. *)
Definition distinctiveness (kv : KeyedVectors) (ts1 ts2 : list string) : npfloat :=
  mean (map (λ t, mean_distance kv t ts2) ts1).

Definition finite (a : npfloat) : Prop := ∃ x, a = Fin x.

(** The zero vector (of any length). *)
Definition zero_vector (u : vector) : Prop := Forall (λ x, x = 0%R) u.

(** ** Auxiliary notions for the proofs *)

(** A computation that leaves every heap as it found it. *)
Definition readonly {A} (m : M A) : Prop := ∀ h, (m h).2 = h.

(** A loop over a list whose body may raise, without the heap. *)
Fixpoint fold_result {A} (g : string → A → result A) (ws : list string) (acc : A) : result A :=
  match ws with
  | [] => Ok acc
  | w :: ws' =>
      match g w acc with
      | Ok acc' => fold_result g ws' acc'
      | Raise e => Raise e
      end
  end.

(** The rows [distances] compares a term with: those of [other_words], or
    every row of the model when [other_words] is empty. *)
Definition other_rows (kv : KeyedVectors) (other_words : list string) : list vector :=
  match other_words with
  | [] => all_vectors kv
  | _ => map (vec kv) other_words
  end.

(** The value of [word_avg_dist] in one round of either loop. *)
Definition word_avg (kv : KeyedVectors) (word : string) (other_words : list string) : npfloat :=
  np_div_len
    (np_sum (map (λ row, np_rsub1 (cosine_similarity (vec kv word) row))
                 (other_rows kv other_words)))
    (length other_words).

(** The loop body shared by the two scorers. *)
Definition round (kv : KeyedVectors) (other : loc) (word : string) (word_avg_dists : num) : M num :=
  ds ← distances kv word other;
  n ← len other;
  ret (py_add word_avg_dists (NpFloat (np_div_len (np_sum ds) n))).

(** ** Sample models and heaps *)

(** Two orthogonal unit vectors. *)
Definition kv_example : KeyedVectors :=
  {| vocab := {[ "a" := [1%R; 0%R]; "b" := [0%R; 1%R] ]} |}.

(** A model with a zero row, whose cosine similarity is 0/0. *)
Definition kv_zero : KeyedVectors :=
  {| vocab := {[ "z" := [0%R] ]} |}.

Definition heap_example : gmap loc (list string) :=
  {[ 1%positive := ["a"; "b"]; 2%positive := ["b"]; 3%positive := [];
     4%positive := ["b"; "a"]; 5%positive := ["a"]; 6%positive := ["a"; "c"] ]}.

Definition heap_zero : gmap loc (list string) :=
  {[ 1%positive := ["z"] ]}.

(** ** Further notions for the scorers *)

(** The first term of a list, in list order, that the vocabulary lacks. *)
Fixpoint first_unknown (kv : KeyedVectors) (ws : list string) : option string :=
  match ws with
  | [] => None
  | w :: ws' =>
      match vocab kv !! w with
      | Some _ => first_unknown kv ws'
      | None => Some w
      end
  end.

(** ** [display_closestwords], up to the projection *)

(** A two-dimensional array: the length of its rows, and the rows. *)
Record ndarray2 : Type := { ncols : nat; rows : list vector }.

(** What the helper can raise: an exception of the model, or NumPy's
    [ValueError] for arrays whose shapes do not fit. *)
Inductive plot_exn : Type :=
  | LibraryError (e : exn)
  | ValueError.

Inductive outcome (A : Type) : Type :=
  | Done (a : A)
  | Failed (e : plot_exn).
Arguments Done {A} a.
Arguments Failed {A} e.

(** [np.append(arr, np.array([values]), axis=0)]: one more row, which
    must have the length of the rows of [arr]. *)
Definition np_append_row (arr : ndarray2) (values : vector) : outcome ndarray2 :=
  if decide (length values = ncols arr)
  then Done {| ncols := ncols arr; rows := rows arr ++ [values] |}
  else Failed ValueError.

(** [model[word]] *)
Definition getitem (model : KeyedVectors) (word : string) : outcome vector :=
  match vocab model !! word with
  | Some v => Done v
  | None => Failed (LibraryError (KeyError word))
  end.

Section Display.
(** [model] is the notebook's global variable; [similar_by_word] is the
    method of the embedding model, of which nothing is assumed. *)
Context (model : KeyedVectors)
        (similar_by_word : KeyedVectors → string → Z → result (list (string * npfloat))).

(** [for wrd_score in close_words: ...] *)
Fixpoint closest_rows (close_words : list (string * npfloat))
    (word_labels : list string) (arr : ndarray2) : outcome (list string * ndarray2) :=
  match close_words with
  | [] => Done (word_labels, arr)
  | wrd_score :: close_words' =>
      match getitem model wrd_score.1 with
      | Failed e => Failed e
      | Done wrd_vector =>
          let word_labels := word_labels ++ [wrd_score.1] in
          match np_append_row arr wrd_vector with
          | Failed e => Failed e
          | Done arr => closest_rows close_words' word_labels arr
          end
      end
  end.

(** The first part of [display_closestwords(wem_model, word, plotnumber)]:
    the labels and the array of vectors that are handed to the
    projection. *)
Definition display_closestwords_arrays (wem_model : KeyedVectors) (word : string)
    (plotnumber : Z) : outcome (list string * ndarray2) :=
  let dimensions := 300%nat in
  let arr := {| ncols := dimensions; rows := [] |} in
  let word_labels := [word] in
  match similar_by_word wem_model word plotnumber with
  | Raise e => Failed (LibraryError e)
  | Ok close_words =>
      match getitem model word with
      | Failed e => Failed e
      | Done v =>
          match np_append_row arr v with
          | Failed e => Failed e
          | Done arr => closest_rows close_words word_labels arr
          end
      end
  end.
End Display.

(** A model with rows of length 300, and a stand-in for the neighbour
    search that always answers "b". *)
Definition kv_300 : KeyedVectors :=
  {| vocab := {[ "a" := replicate 300 1%R; "b" := replicate 300 0%R ]} |}.

Definition neighbours_b (wem_model : KeyedVectors) (word : string) (topn : Z)
    : result (list (string * npfloat)) :=
  Ok [("b", Fin 1)].

(** ** Arithmetic of NumPy floats *)

Lemma np_add_comm a b : np_add a b = np_add b a.
Proof. destruct a, b; simpl; try reflexivity. f_equal; lra. Qed.

Lemma np_add_assoc a b c : np_add a (np_add b c) = np_add (np_add a b) c.
Proof. destruct a, b, c; simpl; try reflexivity. f_equal; lra. Qed.

Lemma np_add_0_l a : np_add (Fin 0) a = a.
Proof. destruct a; simpl; try reflexivity. f_equal; lra. Qed.

Lemma np_add_0_r a : np_add a (Fin 0) = a.
Proof. rewrite np_add_comm. apply np_add_0_l. Qed.

Lemma fdiv_nonzero x y : y ≠ 0%R → fdiv x y = Fin (x / y).
Proof. intros Hy. unfold fdiv. destruct (Req_dec_T y 0); [contradiction|reflexivity]. Qed.

Lemma fdiv_zero_not_finite x : ¬ finite (fdiv x 0).
Proof.
  unfold fdiv, finite. destruct (Req_dec_T 0 0) as [_|Hne]; [|contradiction].
  destruct (Req_dec_T x 0); [|destruct (Rlt_dec 0 x)]; intros [y Hy]; discriminate.
Qed.

Lemma fdiv_pos_zero x : (0 < x)%R → fdiv x 0 = PInf.
Proof.
  intros Hx. unfold fdiv.
  destruct (Req_dec_T 0 0) as [_|Hne]; [|contradiction].
  destruct (Req_dec_T x 0) as [H0|_]; [lra|].
  destruct (Rlt_dec 0 x); [reflexivity|contradiction].
Qed.

Lemma fdiv_zero_zero x y : x = 0%R → y = 0%R → fdiv x y = NaN.
Proof.
  intros -> ->. unfold fdiv.
  destruct (Req_dec_T 0 0) as [_|Hne]; [reflexivity|contradiction].
Qed.

Lemma np_sum_cons x xs : np_sum (x :: xs) = np_add x (np_sum xs).
Proof. reflexivity. Qed.

Lemma np_sum_Permutation xs ys : xs ≡ₚ ys → np_sum xs = np_sum ys.
Proof.
  induction 1 as [|x xs ys _ IH|x y xs|xs ys zs _ IH1 _ IH2].
  - reflexivity.
  - rewrite !np_sum_cons, IH. reflexivity.
  - rewrite !np_sum_cons, !np_add_assoc, (np_add_comm y x). reflexivity.
  - congruence.
Qed.

(** ** Running computations *)

Lemma bind_ok {A B} (m : M A) (k : A → M B) h a h' :
  m h = (Ok a, h') → (m ≫= k) h = k a h'.
Proof. intros Hm. unfold mbind, M_bind, bind. rewrite Hm. reflexivity. Qed.

Lemma bind_raise {A B} (m : M A) (k : A → M B) h e h' :
  m h = (Raise e, h') → (m ≫= k) h = (Raise e, h').
Proof. intros Hm. unfold mbind, M_bind, bind. rewrite Hm. reflexivity. Qed.

Lemma deref_ok l h ws : h !! l = Some ws → deref l h = (Ok ws, h).
Proof. intros Hl. unfold deref. rewrite Hl. reflexivity. Qed.

Lemma len_ok l h ws : h !! l = Some ws → len l h = (Ok (length ws), h).
Proof. intros Hl. unfold len. erewrite bind_ok by (apply deref_ok, Hl). reflexivity. Qed.

(** *** Nothing writes to the heap *)

Lemma readonly_ret {A} (a : A) : readonly (ret a).
Proof. intros h. reflexivity. Qed.

Lemma readonly_raise {A} e : readonly (@raise A e).
Proof. intros h. reflexivity. Qed.

Lemma readonly_bind {A B} (m : M A) (k : A → M B) :
  readonly m → (∀ a, readonly (k a)) → readonly (m ≫= k).
Proof.
  intros Hm Hk h. unfold mbind, M_bind, bind.
  specialize (Hm h). destruct (m h) as [[a|e] h']; simpl in Hm; subst h'.
  - apply Hk.
  - reflexivity.
Qed.

Lemma readonly_deref l : readonly (deref l).
Proof. intros h. unfold deref. destruct (h !! l); reflexivity. Qed.

Lemma readonly_len l : readonly (len l).
Proof. apply readonly_bind; [apply readonly_deref|intros; apply readonly_ret]. Qed.

Lemma readonly_py_truediv a n : readonly (py_truediv a n).
Proof.
  destruct a; simpl; try destruct (decide _);
    first [apply readonly_ret | apply readonly_raise].
Qed.

Lemma readonly_word_vec kv w : readonly (word_vec kv w).
Proof.
  unfold word_vec. destruct (vocab kv !! w);
    [apply readonly_ret | apply readonly_raise].
Qed.

Lemma readonly_word_vecs kv ws : readonly (word_vecs kv ws).
Proof.
  induction ws as [|w ws IH]; simpl; [apply readonly_ret|].
  apply readonly_bind; [apply readonly_word_vec|intros v].
  apply readonly_bind; [exact IH|intros; apply readonly_ret].
Qed.

Lemma readonly_distances kv w l : readonly (distances kv w l).
Proof.
  unfold distances.
  apply readonly_bind; [apply readonly_word_vec|intros v].
  apply readonly_bind; [apply readonly_deref|intros ws].
  apply readonly_bind; [|intros; apply readonly_ret].
  destruct ws; [apply readonly_ret|apply readonly_word_vecs].
Qed.

Lemma readonly_round kv l w acc : readonly (round kv l w acc).
Proof.
  unfold round.
  apply readonly_bind; [apply readonly_distances|intros ds].
  apply readonly_bind; [apply readonly_len|intros; apply readonly_ret].
Qed.

Lemma readonly_for_in {A} (body : string → A → M A) l :
  (∀ w acc, readonly (body w acc)) →
  ∀ fuel i acc, readonly (for_in fuel l i body acc).
Proof.
  intros Hbody fuel. induction fuel as [|fuel IH]; intros i acc; simpl.
  - apply readonly_raise.
  - apply readonly_bind; [apply readonly_deref|intros ws].
    destruct (ws !! i) as [w|]; [|apply readonly_ret].
    apply readonly_bind; [apply Hbody|intros acc'; apply IH].
Qed.

Lemma readonly_dict_cohere kv fuel l : readonly (dict_cohere kv fuel l).
Proof.
  unfold dict_cohere.
  apply readonly_bind; [apply readonly_for_in; intros; apply readonly_round|intros s].
  apply readonly_bind; [apply readonly_len|intros n].
  apply readonly_bind; [apply readonly_py_truediv|intros; apply readonly_ret].
Qed.

Lemma readonly_dict_distinct kv fuel l1 l2 : readonly (dict_distinct kv fuel l1 l2).
Proof.
  unfold dict_distinct.
  apply readonly_bind; [apply readonly_for_in; intros; apply readonly_round|intros s].
  apply readonly_bind; [apply readonly_len|intros n].
  apply readonly_bind; [apply readonly_py_truediv|intros; apply readonly_ret].
Qed.

Lemma readonly_run {A} (m : M A) h : readonly m → m h = ((m h).1, h).
Proof. intros Hm. specialize (Hm h). destruct (m h) as [r h']. simpl in *. congruence. Qed.

(** *** The loop *)

Lemma for_in_run {A} (body : string → A → M A) (g : string → A → result A) l ws h :
  h !! l = Some ws →
  (∀ w acc, body w acc h = (g w acc, h)) →
  ∀ fuel i acc, (length ws - i < fuel)%nat →
    for_in fuel l i body acc h = (fold_result g (drop i ws) acc, h).
Proof.
  intros Hl Hbody fuel. induction fuel as [|fuel IH]; intros i acc Hfuel; [lia|].
  simpl. erewrite bind_ok by (apply deref_ok, Hl).
  destruct (ws !! i) as [w|] eqn:Hi.
  - rewrite (drop_S _ _ _ Hi). simpl.
    unfold mbind, M_bind, bind. rewrite Hbody.
    destruct (g w acc) as [acc'|e]; [|reflexivity].
    apply IH. apply lookup_lt_Some in Hi. lia.
  - apply lookup_ge_None in Hi. rewrite drop_ge by lia. reflexivity.
Qed.

Lemma fold_result_ok {A} (g : string → A → result A) (f : string → A → A) ws :
  (∀ w acc, w ∈ ws → g w acc = Ok (f w acc)) →
  ∀ acc, fold_result g ws acc = Ok (foldl (λ a w, f w a) acc ws).
Proof.
  induction ws as [|w ws IH]; intros Hg acc; [reflexivity|].
  simpl. rewrite Hg by apply list_elem_of_here.
  apply IH. intros w' acc' Hw'. apply Hg. apply list_elem_of_further, Hw'.
Qed.

Lemma foldl_py_add {A} (f : A → npfloat) ws a :
  foldl (λ acc w, py_add acc (NpFloat (f w))) (NpFloat a) ws
  = NpFloat (np_add a (np_sum (map f ws))).
Proof.
  revert a. induction ws as [|w ws IH]; intros a.
  - simpl. rewrite np_add_0_r. reflexivity.
  - simpl foldl. rewrite IH. rewrite map_cons, np_sum_cons, np_add_assoc. reflexivity.
Qed.

(** After at least one round the accumulator, which started as the
    integer 0, is the float sum of the per-term averages. *)
Lemma loop_value {A} (f : A → npfloat) ws :
  ws ≠ [] →
  foldl (λ acc w, py_add acc (NpFloat (f w))) (PyInt 0) ws = NpFloat (np_sum (map f ws)).
Proof.
  destruct ws as [|w ws]; [congruence|intros _].
  change (foldl (λ acc w, py_add acc (NpFloat (f w))) (PyInt 0) (w :: ws))
    with (foldl (λ acc w, py_add acc (NpFloat (f w))) (NpFloat (np_add (Fin 0) (f w))) ws).
  rewrite foldl_py_add, np_add_0_l. reflexivity.
Qed.

(** *** The model's [distances] *)

Lemma vec_lookup kv w v : vocab kv !! w = Some v → vec kv w = v.
Proof. intros Hw. unfold vec. rewrite Hw. reflexivity. Qed.

Lemma word_vec_ok kv w h : in_vocab kv w → word_vec kv w h = (Ok (vec kv w), h).
Proof. intros [v Hv]. unfold word_vec, vec. rewrite Hv. reflexivity. Qed.

Lemma word_vec_raise kv w h : ¬ in_vocab kv w → word_vec kv w h = (Raise (KeyError w), h).
Proof.
  intros Hw. unfold word_vec. destruct (vocab kv !! w) eqn:E; [|reflexivity].
  exfalso. apply Hw. eexists. exact E.
Qed.

Lemma word_vecs_ok kv ws h :
  Forall (in_vocab kv) ws → word_vecs kv ws h = (Ok (map (vec kv) ws), h).
Proof.
  induction 1 as [|w ws Hw _ IH]; [reflexivity|].
  simpl. erewrite bind_ok by (apply word_vec_ok, Hw).
  erewrite bind_ok by exact IH. reflexivity.
Qed.

Lemma in_vocab_dec kv w : {in_vocab kv w} + {¬ in_vocab kv w}.
Proof. unfold in_vocab. destruct (vocab kv !! w); [left; eauto|right; intros [? ?]; discriminate]. Qed.

Lemma word_vecs_raise kv ws h :
  ¬ Forall (in_vocab kv) ws →
  ∃ w, w ∈ ws ∧ ¬ in_vocab kv w ∧ word_vecs kv ws h = (Raise (KeyError w), h).
Proof.
  induction ws as [|w ws IH]; intros Hnot.
  - exfalso. apply Hnot. constructor.
  - destruct (in_vocab_dec kv w) as [Hw|Hw].
    + destruct IH as (w' & Hin & Hw' & Hrun).
      { intros Hall. apply Hnot. constructor; assumption. }
      exists w'. split; [apply list_elem_of_further, Hin|]. split; [exact Hw'|].
      simpl. erewrite bind_ok by (apply word_vec_ok, Hw).
      erewrite bind_raise by exact Hrun. reflexivity.
    + exists w. split; [apply list_elem_of_here|]. split; [exact Hw|].
      simpl. erewrite bind_raise by (apply word_vec_raise, Hw). reflexivity.
Qed.

Lemma distances_ok kv w l h ws :
  in_vocab kv w → h !! l = Some ws → Forall (in_vocab kv) ws →
  distances kv w l h
  = (Ok (map (λ row, np_rsub1 (cosine_similarity (vec kv w) row)) (other_rows kv ws)), h).
Proof.
  intros Hw Hl Hws. unfold distances.
  erewrite bind_ok by (apply word_vec_ok, Hw).
  erewrite bind_ok by (apply deref_ok, Hl).
  destruct ws as [|w' ws'].
  - erewrite bind_ok by reflexivity. reflexivity.
  - erewrite bind_ok by (apply word_vecs_ok, Hws). reflexivity.
Qed.

Lemma round_ok kv w l h ws acc :
  in_vocab kv w → h !! l = Some ws → Forall (in_vocab kv) ws →
  round kv l w acc h = (Ok (py_add acc (NpFloat (word_avg kv w ws))), h).
Proof.
  intros Hw Hl Hws. unfold round.
  erewrite bind_ok by (apply distances_ok; eassumption).
  erewrite bind_ok by (apply len_ok, Hl). reflexivity.
Qed.

Lemma round_unknown kv w l h acc :
  ¬ in_vocab kv w → round kv l w acc h = (Raise (KeyError w), h).
Proof.
  intros Hw. unfold round, distances.
  erewrite bind_raise; [reflexivity|].
  erewrite bind_raise by (apply word_vec_raise, Hw). reflexivity.
Qed.

Lemma round_other_unknown kv w l h ws :
  in_vocab kv w → h !! l = Some ws → ¬ Forall (in_vocab kv) ws →
  ∃ w', w' ∈ ws ∧ ¬ in_vocab kv w' ∧
        ∀ acc, round kv l w acc h = (Raise (KeyError w'), h).
Proof.
  intros Hw Hl Hws.
  destruct (word_vecs_raise kv ws h Hws) as (w' & Hin & Hw' & Hrun).
  exists w'. split; [exact Hin|]. split; [exact Hw'|]. intros acc.
  unfold round, distances.
  erewrite bind_raise; [reflexivity|].
  erewrite bind_ok by (apply word_vec_ok, Hw).
  erewrite bind_ok by (apply deref_ok, Hl).
  destruct ws as [|w0 ws0]; [exfalso; apply Hws; constructor|].
  erewrite bind_raise by exact Hrun. reflexivity.
Qed.

(** *** The scorers, run on a heap *)

Lemma dict_distinct_unfold kv fuel l1 l2 :
  dict_distinct kv fuel l1 l2
  = (for_in fuel l1 0 (round kv l2) (PyInt 0) ≫= λ s,
     len l1 ≫= λ n, py_truediv s n ≫= λ d, ret d).
Proof. reflexivity. Qed.

Lemma dict_cohere_distinct kv fuel l h :
  dict_cohere kv fuel l h = (dict_distinct kv fuel l l ≫= λ d, ret (py_rsub1 d)) h.
Proof.
  unfold dict_cohere, dict_distinct, mbind, M_bind, bind.
  destruct (for_in _ _ _ _ _ h) as [[s|e] h1]; [|reflexivity].
  destruct (len l h1) as [[n|e] h2]; [|reflexivity].
  destruct (py_truediv s n h2) as [[d|e] h3]; reflexivity.
Qed.

Lemma dict_distinct_ok kv fuel l1 l2 h ws1 ws2 :
  h !! l1 = Some ws1 → h !! l2 = Some ws2 → (length ws1 < fuel)%nat →
  ws1 ≠ [] → Forall (in_vocab kv) ws1 → Forall (in_vocab kv) ws2 →
  dict_distinct kv fuel l1 l2 h
  = (Ok (NpFloat (np_div_len (np_sum (map (λ w, word_avg kv w ws2) ws1)) (length ws1))), h).
Proof.
  intros H1 H2 Hfuel Hne Hv1 Hv2. rewrite dict_distinct_unfold.
  assert (Hloop : for_in fuel l1 0 (round kv l2) (PyInt 0) h
            = (Ok (NpFloat (np_sum (map (λ w, word_avg kv w ws2) ws1))), h)).
  { rewrite (for_in_run _ (λ w acc, (round kv l2 w acc h).1) l1 ws1 h H1);
      [|intros w acc; apply readonly_run, readonly_round|lia].
    rewrite drop_0.
    rewrite (fold_result_ok _ (λ w acc, py_add acc (NpFloat (word_avg kv w ws2)))).
    - rewrite loop_value by assumption. reflexivity.
    - intros w acc Hin. rewrite (round_ok kv w l2 h ws2); [reflexivity| |assumption..].
      rewrite Forall_forall in Hv1. apply Hv1, Hin. }
  erewrite bind_ok by exact Hloop.
  erewrite bind_ok by (apply len_ok, H1).
  reflexivity.
Qed.

Lemma dict_cohere_ok kv fuel l h ws :
  h !! l = Some ws → (length ws < fuel)%nat → ws ≠ [] → Forall (in_vocab kv) ws →
  dict_cohere kv fuel l h
  = (Ok (NpFloat (np_rsub1
       (np_div_len (np_sum (map (λ w, word_avg kv w ws) ws)) (length ws)))), h).
Proof.
  intros Hl Hfuel Hne Hv. rewrite dict_cohere_distinct.
  erewrite bind_ok by (apply dict_distinct_ok; eassumption). reflexivity.
Qed.

(** ** Vectors *)

Lemma dot_comm u v : dot u v = dot v u.
Proof.
  revert v. induction u as [|x u IH]; intros [|y v]; simpl; try reflexivity.
  rewrite IH. ring.
Qed.

Lemma cosine_distance_sym u v : cosine_distance u v = cosine_distance v u.
Proof. unfold cosine_distance. rewrite (dot_comm u v), (Rmult_comm (norm u)). reflexivity. Qed.

Lemma word_avg_mean kv w ws : ws ≠ [] → word_avg kv w ws = mean_distance kv w ws.
Proof.
  intros Hne. unfold word_avg, mean_distance, mean, other_rows.
  destruct ws as [|w0 ws0]; [congruence|].
  rewrite map_map, length_map. f_equal. f_equal.
  apply map_ext. intros w'. unfold term_distance, cosine_distance, cosine_similarity.
  rewrite dot_comm. reflexivity.
Qed.

Lemma dict_distinct_value kv fuel l1 l2 h ts1 ts2 :
  h !! l1 = Some ts1 → h !! l2 = Some ts2 → (length ts1 < fuel)%nat →
  ts1 ≠ [] → ts2 ≠ [] → Forall (in_vocab kv) ts1 → Forall (in_vocab kv) ts2 →
  dict_distinct kv fuel l1 l2 h = (Ok (NpFloat (distinctiveness kv ts1 ts2)), h).
Proof.
  intros H1 H2 Hfuel Hne1 Hne2 Hv1 Hv2.
  rewrite (dict_distinct_ok kv fuel l1 l2 h ts1 ts2) by assumption.
  unfold distinctiveness, mean. rewrite length_map.
  rewrite (map_ext _ (λ t, mean_distance kv t ts2)); [reflexivity|].
  intros w. apply word_avg_mean, Hne2.
Qed.

Lemma dict_cohere_value kv fuel l h ts :
  h !! l = Some ts → (length ts < fuel)%nat → ts ≠ [] → Forall (in_vocab kv) ts →
  dict_cohere kv fuel l h = (Ok (NpFloat (coherence kv ts)), h).
Proof.
  intros Hl Hfuel Hne Hv. rewrite dict_cohere_distinct.
  erewrite bind_ok by (apply dict_distinct_value; eassumption). reflexivity.
Qed.

(** *** Zero vectors *)

Lemma dot_zero_vector_l u v : zero_vector u → dot u v = 0%R.
Proof.
  intros Hu. revert v. induction Hu as [|x u -> _ IH]; intros [|y v]; simpl; try reflexivity.
  rewrite IH. ring.
Qed.

Lemma norm_zero_vector u : zero_vector u → norm u = 0%R.
Proof. intros Hu. unfold norm. rewrite dot_zero_vector_l by assumption. apply sqrt_0. Qed.

(** The cosine similarity with a zero vector is 0/0. *)
Lemma cosine_distance_zero_l u v : zero_vector u → cosine_distance u v = NaN.
Proof.
  intros Hu. unfold cosine_distance.
  rewrite (fdiv_zero_zero (dot u v) (norm u * norm v));
    [reflexivity|apply dot_zero_vector_l, Hu|rewrite (norm_zero_vector u Hu); ring].
Qed.

Lemma cosine_distance_zero_r u v : zero_vector v → cosine_distance u v = NaN.
Proof. intros Hv. rewrite cosine_distance_sym. apply cosine_distance_zero_l, Hv. Qed.

Lemma np_add_NaN_r a : np_add a NaN = NaN.
Proof. destruct a; reflexivity. Qed.

Lemma np_sum_NaN xs : NaN ∈ xs → np_sum xs = NaN.
Proof.
  induction xs as [|x xs IH]; intros Hin.
  - apply elem_of_nil in Hin. contradiction.
  - rewrite np_sum_cons. apply elem_of_cons in Hin. destruct Hin as [<-|Hin].
    + reflexivity.
    + rewrite IH by assumption. apply np_add_NaN_r.
Qed.

Lemma mean_NaN xs : NaN ∈ xs → mean xs = NaN.
Proof. intros Hin. unfold mean. rewrite np_sum_NaN by assumption. reflexivity. Qed.

Lemma elem_of_map_NaN {A} (f : A → npfloat) xs x : x ∈ xs → f x = NaN → NaN ∈ map f xs.
Proof.
  intros Hx Hf. rewrite <- Hf. apply list_elem_of_In, in_map, list_elem_of_In, Hx.
Qed.

(** One zero vector in either list turns the whole average into NaN. *)
Lemma distinctiveness_NaN kv ts1 ts2 :
  ts1 ≠ [] → ts2 ≠ [] →
  Exists (λ t, zero_vector (vec kv t)) (ts1 ++ ts2) →
  distinctiveness kv ts1 ts2 = NaN.
Proof.
  intros Hne1 Hne2 Hex. apply Exists_exists in Hex. destruct Hex as (t0 & Hin & Hz).
  unfold distinctiveness. apply elem_of_app in Hin. destruct Hin as [Hin|Hin].
  - apply mean_NaN. apply (elem_of_map_NaN _ ts1 t0 Hin).
    destruct ts2 as [|t2 ts2']; [congruence|].
    apply mean_NaN. apply (elem_of_map_NaN _ _ t2); [apply list_elem_of_here|].
    apply cosine_distance_zero_l, Hz.
  - destruct ts1 as [|t1 ts1']; [congruence|].
    apply mean_NaN. apply (elem_of_map_NaN _ _ t1); [apply list_elem_of_here|].
    apply mean_NaN. apply (elem_of_map_NaN _ ts2 t0 Hin).
    apply cosine_distance_zero_r, Hz.
Qed.

Lemma coherence_NaN kv ts :
  ts ≠ [] → Exists (λ t, zero_vector (vec kv t)) ts → coherence kv ts = NaN.
Proof.
  intros Hne Hex. change (coherence kv ts) with (np_rsub1 (distinctiveness kv ts ts)).
  rewrite distinctiveness_NaN; [reflexivity|assumption|assumption|].
  apply Exists_app. left. exact Hex.
Qed.

(** The mean of one float is that float. *)
Lemma mean_singleton a : mean [a] = a.
Proof.
  unfold mean. destruct a as [x| | |]; try reflexivity.
  simpl. rewrite fdiv_nonzero by lra. f_equal. field.
Qed.

Lemma zero_vector_zero_row : zero_vector (vec kv_zero "z").
Proof. rewrite (vec_lookup kv_zero "z" [0%R] eq_refl). repeat constructor. Qed.

(** ** The claims *)

(** C1, amended: for a non-empty list of terms of the vocabulary,
    [dict_cohere] returns one minus the mean, over the terms of the list,
    of each term's mean cosine distance to every term of the same list;
    each mean is over the whole list, the term itself included, and so
    divides by its length n.  The distance of a term to itself is the one
    the model computes; for a term with the zero vector it is NaN. *)
Theorem dict_cohere_mean_of_means kv fuel thisdict h ts :
  h !! thisdict = Some ts → ts ≠ [] → Forall (in_vocab kv) ts →
  (length ts < fuel)%nat →
  dict_cohere kv fuel thisdict h = (Ok (NpFloat (coherence kv ts)), h)
  ∧ coherence kv ts
    = np_rsub1 (np_div_len
        (np_sum (map (λ t, np_div_len (np_sum (map (term_distance kv t) ts)) (length ts)) ts))
        (length ts))
  ∧ ∀ t, t ∈ ts → zero_vector (vec kv t) → term_distance kv t t = NaN.
Proof.
  intros Hl Hne Hv Hfuel. split; [|split].
  - apply dict_cohere_value; assumption.
  - unfold coherence, mean_distance, mean. rewrite length_map.
    rewrite (map_ext _ (λ t, np_div_len (np_sum (map (term_distance kv t) ts)) (length ts)));
      [reflexivity|].
    intros t. rewrite length_map. reflexivity.
  - intros t _ Ht. apply cosine_distance_zero_l, Ht.
Qed.

Lemma dict_cohere_mean_of_means_witness :
  dict_cohere kv_example 3 1%positive heap_example
    = (Ok (NpFloat (coherence kv_example ["a"; "b"])), heap_example)
  ∧ coherence kv_example ["a"; "b"]
    = np_rsub1 (np_div_len
        (np_sum (map (λ t, np_div_len (np_sum (map (term_distance kv_example t) ["a"; "b"]))
                                      (length ["a"; "b"])) ["a"; "b"]))
        (length ["a"; "b"]))
  ∧ ∀ t, t ∈ ["a"; "b"] → zero_vector (vec kv_example t) → term_distance kv_example t t = NaN.
Proof.
  apply (dict_cohere_mean_of_means kv_example 3 1%positive heap_example ["a"; "b"]).
  - reflexivity.
  - discriminate.
  - repeat constructor; eexists; reflexivity.
  - simpl; lia.
Defined.

(** C2: for two non-empty lists of terms of the vocabulary, [dict_distinct]
    returns the mean, over the terms of [dict1], of each term's mean cosine
    distance to every term of [dict2]: per-term sums divided by
    [len(dict2)], their sum by [len(dict1)]; the distance itself is
    returned, not one minus it. *)
Theorem dict_distinct_mean_of_means kv fuel dict1 dict2 h ts1 ts2 :
  h !! dict1 = Some ts1 → h !! dict2 = Some ts2 →
  ts1 ≠ [] → ts2 ≠ [] →
  Forall (in_vocab kv) ts1 → Forall (in_vocab kv) ts2 →
  (length ts1 < fuel)%nat →
  dict_distinct kv fuel dict1 dict2 h = (Ok (NpFloat (distinctiveness kv ts1 ts2)), h)
  ∧ distinctiveness kv ts1 ts2
    = np_div_len
        (np_sum (map (λ t, np_div_len (np_sum (map (term_distance kv t) ts2)) (length ts2)) ts1))
        (length ts1).
Proof.
  intros H1 H2 Hne1 Hne2 Hv1 Hv2 Hfuel. split.
  - apply dict_distinct_value; assumption.
  - unfold distinctiveness, mean_distance, mean. rewrite length_map.
    rewrite (map_ext _ (λ t, np_div_len (np_sum (map (term_distance kv t) ts2)) (length ts2)));
      [reflexivity|].
    intros t. rewrite length_map. reflexivity.
Qed.

Lemma dict_distinct_mean_of_means_witness :
  dict_distinct kv_example 3 1%positive 2%positive heap_example
  = (Ok (NpFloat (distinctiveness kv_example ["a"; "b"] ["b"])), heap_example).
Proof.
  apply (dict_distinct_mean_of_means kv_example 3 1%positive 2%positive heap_example
           ["a"; "b"] ["b"]).
  - reflexivity.
  - reflexivity.
  - discriminate.
  - discriminate.
  - repeat constructor; eexists; reflexivity.
  - repeat constructor; eexists; reflexivity.
  - simpl; lia.
Defined.

(** C5: neither scorer changes a list object: whatever the call does
    (return, raise, run out of fuel), the heap after it is the heap before
    it, so each input list has the elements it had, in the same order. *)
Theorem scorers_do_not_mutate kv fuel thisdict dict1 dict2 h :
  (dict_cohere kv fuel thisdict h).2 = h
  ∧ (dict_cohere kv fuel thisdict h).2 !! thisdict = h !! thisdict
  ∧ (dict_distinct kv fuel dict1 dict2 h).2 = h
  ∧ (dict_distinct kv fuel dict1 dict2 h).2 !! dict1 = h !! dict1
  ∧ (dict_distinct kv fuel dict1 dict2 h).2 !! dict2 = h !! dict2.
Proof.
  pose proof (readonly_dict_cohere kv fuel thisdict h) as Hc.
  pose proof (readonly_dict_distinct kv fuel dict1 dict2 h) as Hd.
  rewrite Hc, Hd. repeat split; reflexivity.
Qed.

(** C8: both scorers are deterministic: a second call with the same
    arguments, made in the state the first call left, gives the result of
    the first. *)
Theorem scorers_deterministic kv fuel thisdict dict1 dict2 h :
  (dict_cohere kv fuel thisdict (dict_cohere kv fuel thisdict h).2).1
    = (dict_cohere kv fuel thisdict h).1
  ∧ (dict_distinct kv fuel dict1 dict2 (dict_distinct kv fuel dict1 dict2 h).2).1
    = (dict_distinct kv fuel dict1 dict2 h).1.
Proof.
  rewrite (readonly_dict_cohere kv fuel thisdict h).
  rewrite (readonly_dict_distinct kv fuel dict1 dict2 h).
  split; reflexivity.
Qed.

(** C9: for a non-empty list A of terms of the vocabulary, the coherence of
    A is one minus the distinctiveness of A from itself, whether the two
    arguments of [dict_distinct] are one list object or two with the same
    contents. *)
Theorem cohere_one_minus_self_distinct kv fuel l1 l2 h ts :
  h !! l1 = Some ts → h !! l2 = Some ts →
  ts ≠ [] → Forall (in_vocab kv) ts → (length ts < fuel)%nat →
  ∃ d, dict_distinct kv fuel l1 l2 h = (Ok (NpFloat d), h)
       ∧ dict_cohere kv fuel l1 h = (Ok (py_rsub1 (NpFloat d)), h).
Proof.
  intros H1 H2 Hne Hv Hfuel. exists (distinctiveness kv ts ts). split.
  - apply dict_distinct_value; assumption.
  - rewrite (dict_cohere_value kv fuel l1 h ts) by assumption. reflexivity.
Qed.

Lemma cohere_one_minus_self_distinct_witness :
  ∃ d, dict_distinct kv_example 3 1%positive 1%positive heap_example
         = (Ok (NpFloat d), heap_example)
       ∧ dict_cohere kv_example 3 1%positive heap_example
         = (Ok (py_rsub1 (NpFloat d)), heap_example).
Proof.
  apply (cohere_one_minus_self_distinct kv_example 3 1%positive 1%positive heap_example
           ["a"; "b"]).
  - reflexivity.
  - reflexivity.
  - discriminate.
  - repeat constructor; eexists; reflexivity.
  - simpl; lia.
Defined.

(** *** When the scorers raise *)

Lemma Forall_in_vocab_dec kv ws :
  {Forall (in_vocab kv) ws} + {¬ Forall (in_vocab kv) ws}.
Proof. apply List.Forall_dec, in_vocab_dec. Qed.

Lemma fold_result_unknown kv (g : string → num → result num) ws :
  (∀ w acc, in_vocab kv w → ∃ a, g w acc = Ok a) →
  (∀ w acc, ¬ in_vocab kv w → g w acc = Raise (KeyError w)) →
  ¬ Forall (in_vocab kv) ws →
  ∀ acc, ∃ w, w ∈ ws ∧ ¬ in_vocab kv w ∧ fold_result g ws acc = Raise (KeyError w).
Proof.
  intros Hknown Hunknown. induction ws as [|w ws IH]; intros Hnot acc.
  - exfalso. apply Hnot. constructor.
  - destruct (in_vocab_dec kv w) as [Hw|Hw].
    + destruct (Hknown w acc Hw) as [a Ha].
      destruct (IH (λ Hall, Hnot (Forall_cons_2 _ _ _ Hw Hall)) a) as (w' & Hin & Hw' & Hrun).
      exists w'. split; [apply list_elem_of_further, Hin|]. split; [exact Hw'|].
      simpl. rewrite Ha. exact Hrun.
    + exists w. split; [apply list_elem_of_here|]. split; [exact Hw|].
      simpl. rewrite (Hunknown w acc Hw). reflexivity.
Qed.

Lemma dict_distinct_empty kv fuel l1 l2 h :
  h !! l1 = Some [] → (0 < fuel)%nat →
  dict_distinct kv fuel l1 l2 h = (Raise ZeroDivisionError, h).
Proof.
  intros H1 Hfuel. rewrite dict_distinct_unfold.
  erewrite bind_ok.
  2:{ rewrite (for_in_run _ (λ w acc, (round kv l2 w acc h).1) l1 [] h H1);
        [reflexivity|intros w acc; apply readonly_run, readonly_round|simpl; lia]. }
  simpl fold_result.
  erewrite bind_ok by (apply len_ok, H1). reflexivity.
Qed.

Lemma dict_distinct_key_error kv fuel l1 l2 h ts1 ts2 :
  h !! l1 = Some ts1 → h !! l2 = Some ts2 → (length ts1 < fuel)%nat →
  ts1 ≠ [] → ¬ Forall (in_vocab kv) (ts1 ++ ts2) →
  ∃ w, w ∈ ts1 ++ ts2 ∧ ¬ in_vocab kv w
       ∧ dict_distinct kv fuel l1 l2 h = (Raise (KeyError w), h).
Proof.
  intros H1 H2 Hfuel Hne Hnot. rewrite dict_distinct_unfold.
  assert (Hloop : ∃ w, w ∈ ts1 ++ ts2 ∧ ¬ in_vocab kv w ∧
            fold_result (λ w acc, (round kv l2 w acc h).1) ts1 (PyInt 0)
            = Raise (KeyError w)).
  { destruct (Forall_in_vocab_dec kv ts2) as [Hv2|Hv2].
    - destruct (fold_result_unknown kv (λ w acc, (round kv l2 w acc h).1) ts1)
        with (acc := PyInt 0) as (w & Hin & Hw & Hrun).
      + intros w acc Hw. rewrite (round_ok kv w l2 h ts2) by assumption. eauto.
      + intros w acc Hw. rewrite round_unknown by assumption. reflexivity.
      + intros Hv1. apply Hnot, Forall_app. split; assumption.
      + exists w. split; [apply elem_of_app; left; exact Hin|]. split; assumption.
    - destruct ts1 as [|w0 ts1']; [congruence|].
      destruct (in_vocab_dec kv w0) as [Hw0|Hw0].
      + destruct (round_other_unknown kv w0 l2 h ts2 Hw0 H2 Hv2) as (w & Hin & Hw & Hrun).
        exists w. split; [apply elem_of_app; right; exact Hin|]. split; [exact Hw|].
        simpl. rewrite Hrun. reflexivity.
      + exists w0. split; [apply elem_of_app; left; apply list_elem_of_here|].
        split; [exact Hw0|].
        simpl. rewrite round_unknown by assumption. reflexivity. }
  destruct Hloop as (w & Hin & Hw & Hrun).
  exists w. split; [exact Hin|]. split; [exact Hw|].
  erewrite bind_raise; [reflexivity|].
  rewrite (for_in_run _ (λ w acc, (round kv l2 w acc h).1) l1 ts1 h H1);
    [|intros w' acc; apply readonly_run, readonly_round|lia].
  rewrite drop_0, Hrun. reflexivity.
Qed.

Lemma np_add_not_finite_l a b : ¬ finite a → ¬ finite (np_add a b).
Proof.
  intros Ha [x Hx]. apply Ha.
  destruct a, b; simpl in Hx; try discriminate. eexists; reflexivity.
Qed.

Lemma np_div_len_not_finite a n : ¬ finite a → ¬ finite (np_div_len a n).
Proof.
  intros Ha [x Hx]. apply Ha.
  destruct a; simpl in Hx; try discriminate. eexists; reflexivity.
Qed.

Lemma np_div_len_zero a : ¬ finite (np_div_len a 0).
Proof.
  destruct a as [x| | |]; simpl; try (intros [y Hy]; discriminate).
  apply fdiv_zero_not_finite.
Qed.

Lemma np_sum_not_finite {A} (f : A → npfloat) xs :
  xs ≠ [] → (∀ x, ¬ finite (f x)) → ¬ finite (np_sum (map f xs)).
Proof.
  intros Hne Hf. destruct xs as [|x xs]; [congruence|].
  rewrite map_cons, np_sum_cons. apply np_add_not_finite_l, Hf.
Qed.

(** C4, amended: the scorers raise exactly in these cases.  [dict_cohere]
    raises [ZeroDivisionError] on an empty list and [KeyError] on a
    non-empty list with a term that is not in the vocabulary.
    [dict_distinct] raises [ZeroDivisionError] when [dict1] is empty,
    whatever [dict2] holds, and [KeyError] when [dict1] is not empty and
    one of the two lists has a term that is not in the vocabulary.  In
    every other case a float is returned; in particular an empty [dict2]
    raises nothing: the result is then an infinity or a NaN.  The
    exception reaches the caller as raised, and the heap is unchanged. *)
Theorem scorers_raise_exactly kv fuel h thisdict dict1 dict2 ts ts1 ts2 :
  h !! thisdict = Some ts → h !! dict1 = Some ts1 → h !! dict2 = Some ts2 →
  (length ts < fuel)%nat → (length ts1 < fuel)%nat →
  (ts = [] → dict_cohere kv fuel thisdict h = (Raise ZeroDivisionError, h))
  ∧ (ts ≠ [] → ¬ Forall (in_vocab kv) ts →
       ∃ w, w ∈ ts ∧ ¬ in_vocab kv w
            ∧ dict_cohere kv fuel thisdict h = (Raise (KeyError w), h))
  ∧ (ts ≠ [] → Forall (in_vocab kv) ts →
       ∃ a, dict_cohere kv fuel thisdict h = (Ok (NpFloat a), h))
  ∧ (ts1 = [] → dict_distinct kv fuel dict1 dict2 h = (Raise ZeroDivisionError, h))
  ∧ (ts1 ≠ [] → ¬ Forall (in_vocab kv) (ts1 ++ ts2) →
       ∃ w, w ∈ ts1 ++ ts2 ∧ ¬ in_vocab kv w
            ∧ dict_distinct kv fuel dict1 dict2 h = (Raise (KeyError w), h))
  ∧ (ts1 ≠ [] → Forall (in_vocab kv) (ts1 ++ ts2) →
       ∃ a, dict_distinct kv fuel dict1 dict2 h = (Ok (NpFloat a), h)
            ∧ (ts2 = [] → ¬ finite a)).
Proof.
  intros Hl H1 H2 Hfuel Hfuel1. repeat split.
  - intros ->. rewrite dict_cohere_distinct.
    erewrite bind_raise by (apply dict_distinct_empty; [exact Hl|lia]). reflexivity.
  - intros Hne Hnot.
    destruct (dict_distinct_key_error kv fuel thisdict thisdict h ts ts Hl Hl Hfuel Hne)
      as (w & Hin & Hw & Hrun).
    { intros Hall. apply Hnot. apply Forall_app in Hall. apply Hall. }
    exists w. split; [apply elem_of_app in Hin; tauto|]. split; [exact Hw|].
    rewrite dict_cohere_distinct. erewrite bind_raise by exact Hrun. reflexivity.
  - intros Hne Hv. eexists. apply (dict_cohere_ok kv fuel thisdict h ts); assumption.
  - intros ->. apply dict_distinct_empty; [exact H1|lia].
  - intros Hne Hnot. apply dict_distinct_key_error; assumption.
  - intros Hne Hv. apply Forall_app in Hv. destruct Hv as [Hv1 Hv2].
    eexists. split; [apply (dict_distinct_ok kv fuel dict1 dict2 h ts1 ts2); assumption|].
    intros ->. apply np_div_len_not_finite, np_sum_not_finite; [exact Hne|].
    intros w. unfold word_avg. apply np_div_len_zero.
Qed.

Lemma scorers_raise_exactly_witness :
  (["a"; "b"] = [] →
     dict_cohere kv_example 3 1%positive heap_example = (Raise ZeroDivisionError, heap_example))
  ∧ (["a"; "b"] ≠ [] → ¬ Forall (in_vocab kv_example) ["a"; "b"] →
       ∃ w, w ∈ ["a"; "b"] ∧ ¬ in_vocab kv_example w
            ∧ dict_cohere kv_example 3 1%positive heap_example
              = (Raise (KeyError w), heap_example))
  ∧ (["a"; "b"] ≠ [] → Forall (in_vocab kv_example) ["a"; "b"] →
       ∃ a, dict_cohere kv_example 3 1%positive heap_example
            = (Ok (NpFloat a), heap_example))
  ∧ (["a"] = [] →
       dict_distinct kv_example 3 5%positive 3%positive heap_example
       = (Raise ZeroDivisionError, heap_example))
  ∧ (["a"] ≠ [] → ¬ Forall (in_vocab kv_example) (["a"] ++ []) →
       ∃ w, w ∈ ["a"] ++ [] ∧ ¬ in_vocab kv_example w
            ∧ dict_distinct kv_example 3 5%positive 3%positive heap_example
              = (Raise (KeyError w), heap_example))
  ∧ (["a"] ≠ [] → Forall (in_vocab kv_example) (["a"] ++ []) →
       ∃ a, dict_distinct kv_example 3 5%positive 3%positive heap_example
            = (Ok (NpFloat a), heap_example)
            ∧ (@nil string = [] → ¬ finite a)).
Proof.
  apply (scorers_raise_exactly kv_example 3 heap_example
           1%positive 5%positive 3%positive ["a"; "b"] ["a"] []).
  - reflexivity.
  - reflexivity.
  - reflexivity.
  - simpl; lia.
  - simpl; lia.
Defined.

(** *** The sample model, evaluated *)

Lemma norm_unit u : dot u u = 1%R → norm u = 1%R.
Proof. intros Hu. unfold norm. rewrite Hu. apply sqrt_1. Qed.

Lemma norm_example_a : norm [1%R; 0%R] = 1%R.
Proof. apply norm_unit. simpl. ring. Qed.

Lemma norm_example_b : norm [0%R; 1%R] = 1%R.
Proof. apply norm_unit. simpl. ring. Qed.

Lemma all_vectors_example : all_vectors kv_example ≡ₚ [[1%R; 0%R]; [0%R; 1%R]].
Proof.
  unfold all_vectors, kv_example. simpl vocab.
  rewrite map_to_list_insert by reflexivity.
  rewrite map_to_list_singleton. reflexivity.
Qed.

Lemma word_avg_example_all : word_avg kv_example "a" [] = PInf.
Proof.
  unfold word_avg, other_rows.
  rewrite (np_sum_Permutation _ _ (Permutation_map _ all_vectors_example)).
  rewrite (vec_lookup kv_example "a" [1%R; 0%R] eq_refl).
  unfold cosine_similarity. simpl map. rewrite norm_example_a, norm_example_b.
  rewrite !fdiv_nonzero by lra. simpl.
  apply fdiv_pos_zero. lra.
Qed.

(** C4 does not hold as stated: with [dict1 = ["a"]] in the vocabulary and
    [dict2 = []], [dict_distinct] raises nothing.  The model compares "a"
    with every row, the sum of the distances is 1, and a NumPy float
    divided by [len(dict2) = 0] is infinity. *)
Lemma dict_distinct_empty_dict2_returns :
  heap_example !! 5%positive = Some ["a"]
  ∧ heap_example !! 3%positive = Some []
  ∧ Forall (in_vocab kv_example) ["a"]
  ∧ dict_distinct kv_example 2 5%positive 3%positive heap_example
    = (Ok (NpFloat PInf), heap_example)
  ∧ ∀ e, dict_distinct kv_example 2 5%positive 3%positive heap_example
         ≠ (Raise e, heap_example).
Proof.
  assert (Hrun : dict_distinct kv_example 2 5%positive 3%positive heap_example
                 = (Ok (NpFloat PInf), heap_example)).
  { rewrite (dict_distinct_ok kv_example 2 5%positive 3%positive heap_example ["a"] []).
    - simpl map. rewrite word_avg_example_all. reflexivity.
    - reflexivity.
    - reflexivity.
    - simpl; lia.
    - discriminate.
    - repeat constructor; eexists; reflexivity.
    - constructor. }
  split; [reflexivity|]. split; [reflexivity|].
  split; [repeat constructor; eexists; reflexivity|].
  split; [exact Hrun|]. intros e. rewrite Hrun. discriminate.
Qed.

(** *** A model with a zero row *)

Lemma norm_zero_row : norm [0%R] = 0%R.
Proof. unfold norm. simpl. replace (0 * 0 + 0)%R with 0%R by ring. apply sqrt_0. Qed.

(** In the model with a zero row the cosine similarity of "z" with itself
    is 0/0, and the NaN reaches the result. *)
Lemma dict_cohere_zero_row :
  dict_cohere kv_zero 2 1%positive heap_zero = (Ok (NpFloat NaN), heap_zero).
Proof.
  rewrite (dict_cohere_value kv_zero 2 1%positive heap_zero ["z"]).
  - unfold coherence, mean_distance, mean. cbn [map].
    unfold term_distance, cosine_distance.
    rewrite (vec_lookup kv_zero "z" [0%R] eq_refl).
    rewrite (fdiv_zero_zero (dot [0%R] [0%R]) (norm [0%R] * norm [0%R]));
      [reflexivity|simpl; ring|rewrite norm_zero_row; ring].
  - reflexivity.
  - simpl; lia.
  - discriminate.
  - repeat constructor; eexists; reflexivity.
Qed.

(** C1 does not hold as stated: the term "z" of the model with a zero row
    is at distance NaN from itself, not 0, and the coherence of ["z"] is
    NaN, where a self-distance of 0 would give 1. *)
Lemma dict_cohere_self_distance_zero_row :
  heap_zero !! 1%positive = Some ["z"]
  ∧ Forall (in_vocab kv_zero) ["z"]
  ∧ term_distance kv_zero "z" "z" = NaN
  ∧ term_distance kv_zero "z" "z" ≠ Fin 0
  ∧ dict_cohere kv_zero 2 1%positive heap_zero = (Ok (NpFloat NaN), heap_zero).
Proof.
  assert (Hself : term_distance kv_zero "z" "z" = NaN)
    by apply cosine_distance_zero_l, zero_vector_zero_row.
  split; [reflexivity|]. split; [repeat constructor; eexists; reflexivity|].
  split; [exact Hself|]. split; [rewrite Hself; discriminate|].
  apply dict_cohere_zero_row.
Qed.

(** C3 does not hold as stated: "z" is in the vocabulary of [kv_zero], its
    vector is the zero vector, and the coherence of ["z"] is NaN, which is
    no number of the interval [0,1]. *)
Lemma dict_cohere_zero_row_not_in_range :
  heap_zero !! 1%positive = Some ["z"]
  ∧ Forall (in_vocab kv_zero) ["z"]
  ∧ dict_cohere kv_zero 2 1%positive heap_zero = (Ok (NpFloat NaN), heap_zero)
  ∧ ¬ ∃ x, dict_cohere kv_zero 2 1%positive heap_zero = (Ok (NpFloat (Fin x)), heap_zero)
           ∧ (0 <= x <= 1)%R.
Proof.
  split; [reflexivity|]. split; [repeat constructor; eexists; reflexivity|].
  split; [apply dict_cohere_zero_row|].
  intros (x & Hx & _). rewrite dict_cohere_zero_row in Hx. discriminate.
Qed.

(** C3, amended: for a non-empty list of terms of the vocabulary,
    [dict_cohere] raises nothing and returns a float; when a term of the
    list has the zero vector that float is NaN. *)
Theorem dict_cohere_returns_float kv fuel thisdict h ts :
  h !! thisdict = Some ts → ts ≠ [] → Forall (in_vocab kv) ts →
  (length ts < fuel)%nat →
  ∃ a, dict_cohere kv fuel thisdict h = (Ok (NpFloat a), h)
       ∧ (Exists (λ t, zero_vector (vec kv t)) ts → a = NaN).
Proof.
  intros Hl Hne Hv Hfuel. exists (coherence kv ts). split.
  - apply dict_cohere_value; assumption.
  - intros Hex. apply coherence_NaN; assumption.
Qed.

Lemma dict_cohere_returns_float_witness :
  ∃ a, dict_cohere kv_zero 2 1%positive heap_zero = (Ok (NpFloat a), heap_zero)
       ∧ (Exists (λ t, zero_vector (vec kv_zero t)) ["z"] → a = NaN).
Proof.
  apply (dict_cohere_returns_float kv_zero 2 1%positive heap_zero ["z"]).
  - reflexivity.
  - discriminate.
  - repeat constructor; eexists; reflexivity.
  - simpl; lia.
Defined.

(** C6 does not hold as stated: the singleton ["z"] of the model with a
    zero row is scored NaN, not 1. *)
Lemma dict_cohere_singleton_zero_row :
  heap_zero !! 1%positive = Some ["z"]
  ∧ in_vocab kv_zero "z"
  ∧ dict_cohere kv_zero 2 1%positive heap_zero = (Ok (NpFloat NaN), heap_zero)
  ∧ dict_cohere kv_zero 2 1%positive heap_zero ≠ (Ok (NpFloat (Fin 1)), heap_zero).
Proof.
  split; [reflexivity|]. split; [eexists; reflexivity|].
  split; [apply dict_cohere_zero_row|].
  rewrite dict_cohere_zero_row. discriminate.
Qed.

(** C6, amended: for a singleton list [t] with t in the vocabulary,
    [dict_cohere] returns one minus the distance of t to itself as the
    model computes it; when t has the zero vector the result is NaN. *)
Theorem dict_cohere_singleton kv fuel thisdict h t :
  h !! thisdict = Some [t] → in_vocab kv t → (1 < fuel)%nat →
  dict_cohere kv fuel thisdict h
    = (Ok (NpFloat (np_rsub1 (term_distance kv t t))), h)
  ∧ (zero_vector (vec kv t) →
     dict_cohere kv fuel thisdict h = (Ok (NpFloat NaN), h)).
Proof.
  intros Hl Hv Hfuel.
  assert (Hrun : dict_cohere kv fuel thisdict h
                 = (Ok (NpFloat (np_rsub1 (term_distance kv t t))), h)).
  { rewrite (dict_cohere_value kv fuel thisdict h [t]);
      [|assumption|simpl; lia|discriminate|repeat constructor; assumption].
    unfold coherence, mean_distance. cbn [map]. rewrite !mean_singleton. reflexivity. }
  split; [exact Hrun|].
  intros Hz. rewrite Hrun. unfold term_distance.
  rewrite cosine_distance_zero_l by assumption. reflexivity.
Qed.

Lemma dict_cohere_singleton_witness :
  dict_cohere kv_example 2 5%positive heap_example
    = (Ok (NpFloat (np_rsub1 (term_distance kv_example "a" "a"))), heap_example)
  ∧ (zero_vector (vec kv_example "a") →
     dict_cohere kv_example 2 5%positive heap_example = (Ok (NpFloat NaN), heap_example)).
Proof.
  apply (dict_cohere_singleton kv_example 2 5%positive heap_example "a").
  - reflexivity.
  - eexists; reflexivity.
  - lia.
Defined.

(** *** Two worked values *)

(** Two orthogonal unit vectors: each term is at distance 0 from itself and
    1 from the other, so both per-term means are 1/2 and so is the score. *)
Example dict_cohere_example :
  dict_cohere kv_example 3 1%positive heap_example
  = (Ok (NpFloat (Fin (1 / 2))), heap_example).
Proof.
  rewrite (dict_cohere_value kv_example 3 1%positive heap_example ["a"; "b"]);
    [|reflexivity|simpl; lia|discriminate|repeat constructor; eexists; reflexivity].
  unfold coherence, mean_distance, mean. cbn [map length].
  unfold term_distance, cosine_distance.
  rewrite (vec_lookup kv_example "a" [1%R; 0%R] eq_refl).
  rewrite (vec_lookup kv_example "b" [0%R; 1%R] eq_refl).
  rewrite norm_example_a, norm_example_b.
  simpl. rewrite !fdiv_nonzero by lra. simpl. rewrite !fdiv_nonzero by lra. simpl.
  rewrite !fdiv_nonzero by lra. simpl.
  match goal with |- (Ok (NpFloat (Fin ?x)), _) = _ => replace x with (1 / 2)%R by field end.
  reflexivity.
Qed.

(** ["a"; "b"] against ["b"]: the distances to "b" are 1 and 0. *)
Example dict_distinct_example :
  dict_distinct kv_example 3 1%positive 2%positive heap_example
  = (Ok (NpFloat (Fin (1 / 2))), heap_example).
Proof.
  rewrite (dict_distinct_value kv_example 3 1%positive 2%positive heap_example
             ["a"; "b"] ["b"]);
    [|reflexivity|reflexivity|simpl; lia|discriminate|discriminate
     |repeat constructor; eexists; reflexivity..].
  unfold distinctiveness, mean_distance, mean. cbn [map length].
  unfold term_distance, cosine_distance.
  rewrite (vec_lookup kv_example "a" [1%R; 0%R] eq_refl).
  rewrite (vec_lookup kv_example "b" [0%R; 1%R] eq_refl).
  rewrite norm_example_a, norm_example_b.
  simpl. rewrite !fdiv_nonzero by lra. simpl. rewrite !fdiv_nonzero by lra. simpl.
  rewrite !fdiv_nonzero by lra. simpl.
  match goal with |- (Ok (NpFloat (Fin ?x)), _) = _ => replace x with (1 / 2)%R by field end.
  reflexivity.
Qed.

(** The failing runs compute: no arithmetic on reals is reached. *)
Example dict_cohere_empty_example :
  dict_cohere kv_example 1 3%positive heap_example = (Raise ZeroDivisionError, heap_example).
Proof. reflexivity. Qed.

Example dict_cohere_unknown_example :
  dict_cohere kv_example 3 6%positive heap_example = (Raise (KeyError "c"), heap_example).
Proof. reflexivity. Qed.

Example dict_distinct_empty_dict1_example :
  dict_distinct kv_example 1 3%positive 6%positive heap_example
  = (Raise ZeroDivisionError, heap_example).
Proof. reflexivity. Qed.

Example dict_distinct_unknown_example :
  dict_distinct kv_example 2 5%positive 6%positive heap_example
  = (Raise (KeyError "c"), heap_example).
Proof. reflexivity. Qed.

(** ** Further properties of the scorers *)

(** *** Which term a [KeyError] names *)

Lemma first_unknown_None kv ws :
  first_unknown kv ws = None → Forall (in_vocab kv) ws.
Proof.
  induction ws as [|w ws IH]; simpl; intros Hf; [constructor|].
  destruct (vocab kv !! w) as [v|] eqn:E; [|discriminate].
  constructor; [eexists; exact E|apply IH, Hf].
Qed.

Lemma word_vecs_first_unknown kv ws w h :
  first_unknown kv ws = Some w → word_vecs kv ws h = (Raise (KeyError w), h).
Proof.
  induction ws as [|w0 ws IH]; simpl; intros Hf; [discriminate|].
  destruct (vocab kv !! w0) as [v|] eqn:E.
  - erewrite bind_ok by (apply word_vec_ok; eexists; exact E).
    erewrite bind_raise by (apply IH, Hf). reflexivity.
  - injection Hf as <-.
    erewrite bind_raise; [reflexivity|].
    apply word_vec_raise. intros [v Hv]. congruence.
Qed.

Lemma round_first_unknown kv w0 l h ws w acc :
  in_vocab kv w0 → h !! l = Some ws → first_unknown kv ws = Some w →
  round kv l w0 acc h = (Raise (KeyError w), h).
Proof.
  intros Hw0 Hl Hf. unfold round, distances.
  erewrite bind_raise; [reflexivity|].
  erewrite bind_ok by (apply word_vec_ok, Hw0).
  erewrite bind_ok by (apply deref_ok, Hl).
  destruct ws as [|w1 ws1]; [discriminate|].
  erewrite bind_raise by (apply word_vecs_first_unknown, Hf). reflexivity.
Qed.

Lemma fold_result_first_unknown kv (g : string → num → result num) ws w :
  (∀ w acc, in_vocab kv w → ∃ a, g w acc = Ok a) →
  (∀ w acc, ¬ in_vocab kv w → g w acc = Raise (KeyError w)) →
  first_unknown kv ws = Some w →
  ∀ acc, fold_result g ws acc = Raise (KeyError w).
Proof.
  intros Hknown Hunknown. induction ws as [|w0 ws IH]; simpl; intros Hf acc; [discriminate|].
  destruct (vocab kv !! w0) as [v|] eqn:E.
  - destruct (Hknown w0 acc (ex_intro _ v E)) as [a Ha]. rewrite Ha. apply IH, Hf.
  - injection Hf as <-. rewrite Hunknown; [reflexivity|].
    intros [v Hv]. congruence.
Qed.

Lemma dict_distinct_loop_raise kv fuel l1 l2 h ts1 e :
  h !! l1 = Some ts1 → (length ts1 < fuel)%nat →
  fold_result (λ w acc, (round kv l2 w acc h).1) ts1 (PyInt 0) = Raise e →
  dict_distinct kv fuel l1 l2 h = (Raise e, h).
Proof.
  intros H1 Hfuel Hrun. rewrite dict_distinct_unfold.
  erewrite bind_raise; [reflexivity|].
  rewrite (for_in_run _ (λ w acc, (round kv l2 w acc h).1) l1 ts1 h H1);
    [|intros w' acc; apply readonly_run, readonly_round|lia].
  rewrite drop_0, Hrun. reflexivity.
Qed.

(** X6: when a list has a term that is not in the vocabulary,
    [dict_cohere] raises [KeyError] for the first such term in list
    order. *)
Theorem dict_cohere_first_unknown kv fuel thisdict h ts w :
  h !! thisdict = Some ts → first_unknown kv ts = Some w →
  (length ts < fuel)%nat →
  dict_cohere kv fuel thisdict h = (Raise (KeyError w), h).
Proof.
  intros Hl Hf Hfuel. rewrite dict_cohere_distinct.
  erewrite bind_raise; [reflexivity|].
  apply (dict_distinct_loop_raise kv fuel thisdict thisdict h ts); try assumption.
  destruct ts as [|w0 rest]; [discriminate|].
  destruct (in_vocab_dec kv w0) as [Hw0|Hw0].
  - simpl. rewrite (round_first_unknown kv w0 thisdict h (w0 :: rest) w) by assumption.
    reflexivity.
  - assert (w = w0) as ->.
    { simpl in Hf. destruct (vocab kv !! w0) as [v|] eqn:E; [|congruence].
      exfalso. apply Hw0. eexists. exact E. }
    simpl. rewrite round_unknown by assumption. reflexivity.
Qed.

Lemma dict_cohere_first_unknown_witness :
  dict_cohere kv_example 3 6%positive heap_example = (Raise (KeyError "c"), heap_example).
Proof.
  apply (dict_cohere_first_unknown kv_example 3 6%positive heap_example ["a"; "c"] "c").
  - reflexivity.
  - reflexivity.
  - simpl; lia.
Defined.

(** X7: the [KeyError] of [dict_distinct], for a non-empty [dict1]: it
    names the first term of [dict1] when that term is unknown; otherwise
    the first unknown term of [dict2], if there is one; and only when all
    of [dict2] is known, the first unknown term of [dict1]. *)
Theorem dict_distinct_first_unknown kv fuel dict1 dict2 h w0 rest ts2 :
  h !! dict1 = Some (w0 :: rest) → h !! dict2 = Some ts2 →
  (length (w0 :: rest) < fuel)%nat →
  (¬ in_vocab kv w0 →
     dict_distinct kv fuel dict1 dict2 h = (Raise (KeyError w0), h))
  ∧ (in_vocab kv w0 → ∀ w, first_unknown kv ts2 = Some w →
       dict_distinct kv fuel dict1 dict2 h = (Raise (KeyError w), h))
  ∧ (first_unknown kv ts2 = None → ∀ w, first_unknown kv (w0 :: rest) = Some w →
       dict_distinct kv fuel dict1 dict2 h = (Raise (KeyError w), h)).
Proof.
  intros H1 H2 Hfuel. split; [|split].
  - intros Hw0. apply (dict_distinct_loop_raise kv fuel dict1 dict2 h (w0 :: rest)); try assumption.
    simpl. rewrite round_unknown by assumption. reflexivity.
  - intros Hw0 w Hf.
    apply (dict_distinct_loop_raise kv fuel dict1 dict2 h (w0 :: rest)); try assumption.
    simpl. rewrite (round_first_unknown kv w0 dict2 h ts2 w) by assumption. reflexivity.
  - intros Hf2 w Hf1.
    apply (dict_distinct_loop_raise kv fuel dict1 dict2 h (w0 :: rest)); try assumption.
    apply (fold_result_first_unknown kv); try assumption.
    + intros w' acc Hw'.
      rewrite (round_ok kv w' dict2 h ts2);
        [eauto|assumption|assumption|apply first_unknown_None, Hf2].
    + intros w' acc Hw'. rewrite round_unknown by assumption. reflexivity.
Qed.

Lemma dict_distinct_first_unknown_witness :
  (¬ in_vocab kv_example "a" →
     dict_distinct kv_example 3 6%positive 6%positive heap_example
     = (Raise (KeyError "a"), heap_example))
  ∧ (in_vocab kv_example "a" → ∀ w, first_unknown kv_example ["a"; "c"] = Some w →
       dict_distinct kv_example 3 6%positive 6%positive heap_example
       = (Raise (KeyError w), heap_example))
  ∧ (first_unknown kv_example ["a"; "c"] = None →
       ∀ w, first_unknown kv_example ["a"; "c"] = Some w →
       dict_distinct kv_example 3 6%positive 6%positive heap_example
       = (Raise (KeyError w), heap_example)).
Proof.
  apply (dict_distinct_first_unknown kv_example 3 6%positive 6%positive heap_example
           "a" ["c"] ["a"; "c"]).
  - reflexivity.
  - reflexivity.
  - simpl; lia.
Defined.

(** *** A zero vector in either list *)

(** X9: for two non-empty lists of terms of the vocabulary, when a term of
    either list has the zero vector [dict_distinct] returns NaN. *)
Theorem dict_distinct_zero_vector_nan kv fuel dict1 dict2 h ts1 ts2 :
  h !! dict1 = Some ts1 → h !! dict2 = Some ts2 →
  ts1 ≠ [] → ts2 ≠ [] →
  Forall (in_vocab kv) ts1 → Forall (in_vocab kv) ts2 →
  Exists (λ t, zero_vector (vec kv t)) (ts1 ++ ts2) →
  (length ts1 < fuel)%nat →
  dict_distinct kv fuel dict1 dict2 h = (Ok (NpFloat NaN), h).
Proof.
  intros H1 H2 Hne1 Hne2 Hv1 Hv2 Hex Hfuel.
  rewrite (dict_distinct_value kv fuel dict1 dict2 h ts1 ts2) by assumption.
  rewrite distinctiveness_NaN by assumption. reflexivity.
Qed.

Lemma dict_distinct_zero_vector_nan_witness :
  dict_distinct kv_zero 2 1%positive 1%positive heap_zero = (Ok (NpFloat NaN), heap_zero).
Proof.
  apply (dict_distinct_zero_vector_nan kv_zero 2 1%positive 1%positive heap_zero ["z"] ["z"]).
  - reflexivity.
  - reflexivity.
  - discriminate.
  - discriminate.
  - repeat constructor; eexists; reflexivity.
  - repeat constructor; eexists; reflexivity.
  - apply Exists_cons_hd, zero_vector_zero_row.
  - simpl; lia.
Defined.

(** ** The arrays of [display_closestwords] *)

Lemma np_append_row_ok arr v :
  length v = ncols arr →
  np_append_row arr v = Done {| ncols := ncols arr; rows := rows arr ++ [v] |}.
Proof. intros Hv. unfold np_append_row. destruct (decide _); [reflexivity|contradiction]. Qed.

Lemma np_append_row_fail arr v :
  length v ≠ ncols arr → np_append_row arr v = Failed ValueError.
Proof. intros Hv. unfold np_append_row. destruct (decide _); [contradiction|reflexivity]. Qed.

Lemma getitem_ok model w v : vocab model !! w = Some v → getitem model w = Done v.
Proof. intros Hw. unfold getitem. rewrite Hw. reflexivity. Qed.

Lemma getitem_fail model w :
  vocab model !! w = None → getitem model w = Failed (LibraryError (KeyError w)).
Proof. intros Hw. unfold getitem. rewrite Hw. reflexivity. Qed.

Lemma closest_rows_ok model cw :
  ∀ labels arr,
  Forall (λ w, ∃ v, vocab model !! w = Some v ∧ length v = ncols arr) (map fst cw) →
  closest_rows model cw labels arr
  = Done (labels ++ map fst cw,
          {| ncols := ncols arr; rows := rows arr ++ map (vec model) (map fst cw) |}).
Proof.
  induction cw as [|[w score] cw IH]; intros labels arr Hall.
  - simpl. rewrite !app_nil_r. destruct arr; reflexivity.
  - simpl in Hall. apply Forall_cons in Hall. destruct Hall as [(v & Hv & Hlen) Hall].
    simpl. rewrite (getitem_ok model w v Hv), (np_append_row_ok arr v Hlen).
    rewrite IH by exact Hall. simpl.
    rewrite (vec_lookup model w v Hv), <- !app_assoc. reflexivity.
Qed.

Lemma closest_rows_fail model good :
  ∀ cw labels arr bad rest,
  map fst cw = good ++ bad :: rest →
  Forall (λ w, ∃ v, vocab model !! w = Some v ∧ length v = ncols arr) good →
  (vocab model !! bad = None →
     closest_rows model cw labels arr = Failed (LibraryError (KeyError bad)))
  ∧ (∀ v, vocab model !! bad = Some v → length v ≠ ncols arr →
       closest_rows model cw labels arr = Failed ValueError).
Proof.
  induction good as [|g good IH]; intros cw labels arr bad rest Hcw Hgood.
  - destruct cw as [|[w score] cw]; [discriminate|].
    simpl in Hcw. injection Hcw as -> _. split.
    + intros Hb. simpl. rewrite (getitem_fail model bad Hb). reflexivity.
    + intros v Hb Hlen. simpl.
      rewrite (getitem_ok model bad v Hb), (np_append_row_fail arr v Hlen). reflexivity.
  - destruct cw as [|[w score] cw]; [discriminate|].
    simpl in Hcw. injection Hcw as -> Hcw.
    apply Forall_cons in Hgood. destruct Hgood as [(v & Hv & Hlen) Hgood].
    simpl. rewrite (getitem_ok model g v Hv), (np_append_row_ok arr v Hlen).
    exact (IH cw (labels ++ [g]) {| ncols := ncols arr; rows := rows arr ++ [v] |}
             bad rest Hcw Hgood).
Qed.

(** X12: when the neighbour search of [wem_model] answers and the global
    [model] has a vector of length 300 for the word and for each
    neighbour, the labels are the word followed by the neighbours in
    order, and the array has one row per label: the vector of that label
    in the global [model], whatever [wem_model] is. *)
Theorem display_closestwords_arrays_ok model similar_by_word wem_model word plotnumber
    close_words :
  similar_by_word wem_model word plotnumber = Ok close_words →
  Forall (λ w, ∃ v, vocab model !! w = Some v ∧ length v = 300%nat)
         (word :: map fst close_words) →
  display_closestwords_arrays model similar_by_word wem_model word plotnumber
  = Done (word :: map fst close_words,
          {| ncols := 300; rows := map (vec model) (word :: map fst close_words) |}).
Proof.
  intros Hsim Hall. apply Forall_cons in Hall. destruct Hall as [(v & Hv & Hlen) Hall].
  unfold display_closestwords_arrays. rewrite Hsim, (getitem_ok model word v Hv).
  rewrite np_append_row_ok by exact Hlen.
  rewrite closest_rows_ok by exact Hall.
  simpl. rewrite (vec_lookup model word v Hv). reflexivity.
Qed.

Lemma display_closestwords_arrays_ok_witness :
  display_closestwords_arrays kv_300 neighbours_b kv_example "a" 50
  = Done ("a" :: map fst [("b", Fin 1)],
          {| ncols := 300; rows := map (vec kv_300) ("a" :: map fst [("b", Fin 1)]) |}).
Proof.
  apply (display_closestwords_arrays_ok kv_300 neighbours_b kv_example "a" 50%Z
           [("b", Fin 1)]).
  - reflexivity.
  - repeat constructor; eexists; split; reflexivity.
Defined.

(** X13: when the neighbour search answers, the first label, in the order
    word then neighbours, that the global [model] cannot serve decides the
    failure: [KeyError] if [model] lacks it, [ValueError] if its vector
    does not have length 300. *)
Theorem display_closestwords_arrays_fail model similar_by_word wem_model word plotnumber
    close_words good bad rest :
  similar_by_word wem_model word plotnumber = Ok close_words →
  word :: map fst close_words = good ++ bad :: rest →
  Forall (λ w, ∃ v, vocab model !! w = Some v ∧ length v = 300%nat) good →
  (vocab model !! bad = None →
     display_closestwords_arrays model similar_by_word wem_model word plotnumber
     = Failed (LibraryError (KeyError bad)))
  ∧ (∀ v, vocab model !! bad = Some v → length v ≠ 300%nat →
       display_closestwords_arrays model similar_by_word wem_model word plotnumber
       = Failed ValueError).
Proof.
  intros Hsim Hsplit Hgood. unfold display_closestwords_arrays. rewrite Hsim.
  destruct good as [|g good].
  - simpl in Hsplit. injection Hsplit as -> _. split.
    + intros Hb. rewrite (getitem_fail model bad Hb). reflexivity.
    + intros v Hb Hlen. rewrite (getitem_ok model bad v Hb).
      rewrite np_append_row_fail by exact Hlen. reflexivity.
  - simpl in Hsplit. injection Hsplit as -> Hsplit.
    apply Forall_cons in Hgood. destruct Hgood as [(v & Hv & Hlen) Hgood].
    rewrite (getitem_ok model g v Hv), np_append_row_ok by exact Hlen.
    exact (closest_rows_fail model good close_words ([g] ++ [])
             {| ncols := 300; rows := [] ++ [v] |} bad rest Hsplit Hgood).
Qed.

Lemma display_closestwords_arrays_fail_witness :
  (vocab kv_example !! "a" = None →
     display_closestwords_arrays kv_example neighbours_b kv_300 "a" 50
     = Failed (LibraryError (KeyError "a")))
  ∧ (∀ v, vocab kv_example !! "a" = Some v → length v ≠ 300%nat →
       display_closestwords_arrays kv_example neighbours_b kv_300 "a" 50
       = Failed ValueError).
Proof.
  apply (display_closestwords_arrays_fail kv_example neighbours_b kv_300 "a" 50%Z
           [("b", Fin 1)] [] "a" ["b"]).
  - reflexivity.
  - reflexivity.
  - constructor.
Defined.

(** The sample model has rows of length 2: the helper stops at the first
    [np.append]. *)
Example display_closestwords_arrays_example :
  display_closestwords_arrays kv_example neighbours_b kv_300 "a" 50 = Failed ValueError.
Proof. reflexivity. Qed.
